(** * Proxy sequences of the VOT toolkit ([vot/dataset/proxy.py])

    A shallow embedding of the proxy layer over tracking sequences: the
    generic forwarding proxy [ProxySequence], the frame-remapping view
    [FrameMapSequence] with its channel wrapper [FrameMapChannel], and the
    channel-filtering view [ChannelFilterSequence].

    Python objects are modelled as instances carrying the class they were
    built from and their instance dictionary; method calls dispatch on the
    class, attribute reads go through the dictionary and raise
    [AttributeError] for a name that no constructor assigned. Exceptions
    are the [Raise] branch of a small error monad. *)

From stdpp Require Import base option list strings gmap.
From Stdlib Require Import ZArith Lia.

Local Open Scope Z_scope.

(** ** Exceptions and results *)

(** [IndexError] is what list indexing raises, [AttributeError] what the
    read of an attribute raises that the instance does not have;
    [SourceError] stands for whatever else a provider raises. *)
Inductive exn : Type :=
| IndexError
| AttributeError (name : string)
| TypeError
| SourceError (code : nat).

Inductive result (A : Type) : Type :=
| Ok (a : A)
| Raise (e : exn).

Arguments Ok {A} a.
Arguments Raise {A} e.

Definition result_bind {A B} (f : A → result B) (r : result A) : result B :=
  match r with
  | Ok a => f a
  | Raise e => Raise e
  end.

Definition result_map {A B} (f : A → B) (r : result A) : result B :=
  match r with
  | Ok a => Ok (f a)
  | Raise e => Raise e
  end.

#[global] Instance result_ret : MRet result := @Ok.
#[global] Instance result_mbind : MBind result := @result_bind.
#[global] Instance result_fmap : FMap result := @result_map.

(** [mapR f l] runs [f] over [l] from left to right and stops at the first
    exception, as a Python loop or comprehension does. *)
Fixpoint mapR {A B} (f : A → result B) (l : list A) : result (list B) :=
  match l with
  | [] => Ok []
  | x :: l' => y ← f x; ys ← mapR f l'; Ok (y :: ys)
  end.

(** ** Python values that cross the proxy layer

    Regions, tag sets, value mappings and images belong to the concrete
    providers; the proxies only pass them around, so they are opaque
    objects told apart by an identifier. *)

#[warnings="-register-all"] Inductive pyval : Type :=
| PNone
| PInt (z : Z)
| PStr (s : string)
| PObj (id : nat)
| PList (l : list pyval).

(** ** Python list primitives *)

(** [len(l)] *)
Definition len {A} (l : list A) : Z := Z.of_nat (length l).

(** [l[i]]: a negative index counts from the end; anything outside
    [-len(l), len(l)) raises [IndexError]. *)
Definition getitem {A} (l : list A) (i : Z) : result A :=
  let j := if i <? 0 then i + len l else i in
  if (0 <=? j) && (j <? len l) then
    match l !! Z.to_nat j with
    | Some x => Ok x
    | None => Raise IndexError
    end
  else Raise IndexError.

(** [l[i] = x] for the non-negative index an [enumerate] produces. *)
Definition setitem {A} (l : list A) (i : nat) (x : A) : result (list A) :=
  if decide (i < length l)%nat then Ok (<[i:=x]> l) else Raise IndexError.

(** [enumerate(l)] *)
Definition enumerate {A} (l : list A) : list (nat * A) := imap (λ i x, (i, x)) l.

(** ** Objects

    A channel is either one of a concrete provider, known only through its
    interface, or a [FrameMapChannel] built by this module, whose two
    attributes [_source] and [_map] are both assigned by its [__init__]. *)

Record ConcreteChannel : Type := {
  cc_length : Z;
  cc_frame : Z → result pyval;
  cc_filename : Z → result pyval;
  cc_size : pyval
}.

Inductive Channel : Type :=
| ProviderChannel (c : ConcreteChannel)
| FrameMapChannel (source : Channel) (frame_map : list Z).

(** A concrete sequence, as the provider implements it: [c_len] is what
    [len(S)] answers, never negative, and [c_length] what the property
    [S.length] answers; [groundtruth], [tags] and [values] take the
    optional index, [None] standing for the call without an index. *)
Record ConcreteSequence : Type := {
  c_len : nat;
  c_length : Z;
  c_metadata : string → pyval → pyval;
  c_channel : option string → option Channel;
  c_channels : list string;
  c_groundtruth : option Z → result pyval;
  c_tags : option Z → result pyval;
  c_values : option Z → result pyval;
  c_size : pyval
}.

(** The three classes of this module. *)
Inductive cls : Type :=
| ProxySequence
| FrameMapSequence
| ChannelFilterSequence.

(** What an instance attribute of a proxy holds. *)
Inductive attr : Type :=
| AInts (l : list Z)
| AStrs (l : list string).

(** An instance of one of the proxy classes: its class, the attribute
    [_source] that [ProxySequence.__init__] assigns for every one of them,
    and the rest of its instance dictionary. *)
Inductive Sequence : Type :=
| Concrete (c : ConcreteSequence)
| Instance (k : cls) (source : Sequence) (dict : gmap string attr).

(** Modelled from the spec: the handle [Frame(sequence, index)] of
    [vot.dataset], which is not part of this module; it carries no data,
    only the pair of its owning sequence and an index. *)
Record Frame : Type := { sequence : Sequence; index : Z }.

(** Attribute reads [self.<name>]. *)
Definition get_ints (d : gmap string attr) (name : string) : result (list Z) :=
  match d !! name with
  | Some (AInts l) => Ok l
  | Some (AStrs _) => Raise TypeError
  | None => Raise (AttributeError name)
  end.

Definition get_strs (d : gmap string attr) (name : string) : result (list string) :=
  match d !! name with
  | Some (AStrs l) => Ok l
  | Some (AInts _) => Raise TypeError
  | None => Raise (AttributeError name)
  end.

(** ** [FrameMapChannel] and the channel interface *)

Module Chan.

Definition length (self : Channel) : Z :=
  match self with
  | ProviderChannel c => cc_length c
  | FrameMapChannel _ frame_map => len frame_map
  end.

Fixpoint frame (self : Channel) (index : Z) : result pyval :=
  match self with
  | ProviderChannel c => cc_frame c index
  | FrameMapChannel source frame_map =>
      x ← getitem frame_map index; frame source x
  end.

Fixpoint filename (self : Channel) (index : Z) : result pyval :=
  match self with
  | ProviderChannel c => cc_filename c index
  | FrameMapChannel source frame_map =>
      x ← getitem frame_map index; filename source x
  end.

Fixpoint size (self : Channel) : pyval :=
  match self with
  | ProviderChannel c => cc_size c
  | FrameMapChannel source _ => size source
  end.

End Chan.

(** ** The sequence classes *)

(** [x in l] for an optional name against a list of names: [None] is in no
    list of strings. *)
Definition contains (name : option string) (l : list string) : bool :=
  match name with
  | Some n => bool_decide (n ∈ l)
  | None => false
  end.

(** A comprehension [[i for i in l if p(i)]] whose condition may raise. *)
Fixpoint filterR {A} (p : A → result bool) (l : list A) : result (list A) :=
  match l with
  | [] => Ok []
  | x :: l' =>
      b ← p x; ys ← filterR p l'; Ok (if b : bool then x :: ys else ys)
  end.

(** The body of the loop of [FrameMapSequence.groundtruth]:
    [for i, m in enumerate(self._map): groundtruth[i] = source.groundtruth(m)]. *)
Fixpoint groundtruth_loop (source_groundtruth : Z → result pyval)
    (items : list (nat * Z)) (groundtruth : list pyval) : result (list pyval) :=
  match items with
  | [] => Ok groundtruth
  | (i, m) :: items' =>
      r ← source_groundtruth m;
      groundtruth' ← setitem groundtruth i r;
      groundtruth_loop source_groundtruth items' groundtruth'
  end.

Module Seq.

(** The property [length]: [len(self._map)] for a frame map, and
    [len(self._source)] otherwise, which is the source's [__len__]. *)
Fixpoint length (self : Sequence) : result Z :=
  match self with
  | Concrete c => Ok (c_length c)
  | Instance FrameMapSequence _ d =>
      m ← get_ints d "_map"; Ok (len m)
  | Instance _ source _ =>
      match source with
      | Concrete c => Ok (Z.of_nat (c_len c))
      | Instance _ _ _ => length source
      end
  end.

(** [__len__]: every class of this module returns [self.length]. *)
Definition __len__ (self : Sequence) : result Z :=
  match self with
  | Concrete c => Ok (Z.of_nat (c_len c))
  | Instance _ _ _ => length self
  end.

(** Modelled from the spec: the [frame] of a concrete sequence, which is
    not part of this module; it fails with an out-of-range error outside
    [0, length) and otherwise hands out a handle on the sequence itself. *)
Definition concrete_frame (c : ConcreteSequence) (index : Z) : result Frame :=
  if (0 <=? index) && (index <? c_length c)
  then Ok {| sequence := Concrete c; index := index |}
  else Raise IndexError.

Definition frame (self : Sequence) (index : Z) : result Frame :=
  match self with
  | Concrete c => concrete_frame c index
  | Instance FrameMapSequence _ d =>
      m ← get_ints d "_map";
      x ← getitem m index;
      Ok {| sequence := self; index := x |}
  | Instance _ _ _ => Ok {| sequence := self; index := index |}
  end.

Fixpoint metadata (self : Sequence) (name : string) (default : pyval) : pyval :=
  match self with
  | Concrete c => c_metadata c name default
  | Instance _ source _ => metadata source name default
  end.

Fixpoint channels (self : Sequence) : result (list string) :=
  match self with
  | Concrete c => Ok (c_channels c)
  | Instance ChannelFilterSequence _ d => get_strs d "_channels"
  | Instance _ source _ => channels source
  end.

Fixpoint channel (self : Sequence) (name : option string) : result (option Channel) :=
  match self with
  | Concrete c => Ok (c_channel c name)
  | Instance ProxySequence source _ => channel source name
  | Instance FrameMapSequence source d =>
      sourcechannel ← channel source name;
      match sourcechannel with
      | None => Ok None
      | Some sc => m ← get_ints d "_map"; Ok (Some (FrameMapChannel sc m))
      end
  | Instance ChannelFilterSequence source d =>
      f ← get_strs d "_filter";
      if negb (contains name f) then Ok None
      else
        sourcechannel ← channel source name;
        match sourcechannel with
        | None => Ok None
        | Some sc => m ← get_ints d "_map"; Ok (Some (FrameMapChannel sc m))
        end
  end.

Fixpoint groundtruth (self : Sequence) (index : option Z) : result pyval :=
  match self with
  | Concrete c => c_groundtruth c index
  | Instance FrameMapSequence source d =>
      match index with
      | None =>
          n ← __len__ self;
          m ← get_ints d "_map";
          gt ← groundtruth_loop (λ x, groundtruth source (Some x))
                 (enumerate m) (replicate (Z.to_nat n) PNone);
          Ok (PList gt)
      | Some i =>
          m ← get_ints d "_map";
          x ← getitem m i;
          groundtruth source (Some x)
      end
  | Instance _ source _ => groundtruth source index
  end.

Fixpoint tags (self : Sequence) (index : option Z) : result pyval :=
  match self with
  | Concrete c => c_tags c index
  | Instance FrameMapSequence source d =>
      match index with
      | None => tags source None
      | Some i =>
          m ← get_ints d "_map";
          x ← getitem m i;
          tags source (Some x)
      end
  | Instance _ source _ => tags source index
  end.

Fixpoint values (self : Sequence) (index : option Z) : result pyval :=
  match self with
  | Concrete c => c_values c index
  | Instance FrameMapSequence source d =>
      match index with
      | None => values source None
      | Some i =>
          m ← get_ints d "_map";
          x ← getitem m i;
          values source (Some x)
      end
  | Instance _ source _ => values source index
  end.

Fixpoint size (self : Sequence) : pyval :=
  match self with
  | Concrete c => c_size c
  | Instance _ source _ => size source
  end.

End Seq.

(** ** Constructors *)

(** Modelled from the spec: [Sequence.__init__(name, dataset)] of
    [vot.dataset], which is not part of this module. A sequence is
    identified by a name and a dataset reference and the base class keeps
    nothing else; no method of this module reads the two back, so the
    part of the dictionary that the proxies can see starts empty. *)
Definition Sequence_init : gmap string attr := ∅.

(** [ProxySequence(source)]: the base initialiser, then [self._source]. *)
Definition new_ProxySequence (source : Sequence) : Sequence :=
  Instance ProxySequence source Sequence_init.

(** [FrameMapSequence(source, frame_map)]:
    [self._map = [i for i in frame_map if i >= 0 and i < source.length]]. *)
Definition new_FrameMapSequence (source : Sequence) (frame_map : list Z)
    : result Sequence :=
  m ← filterR (λ i, if 0 <=? i then n ← Seq.length source; Ok (i <? n)
                    else Ok false) frame_map;
  Ok (Instance FrameMapSequence source (<["_map" := AInts m]> Sequence_init)).

(** [ChannelFilterSequence(source, channels)]:
    [self._filter = [i for i in channels if i in source.channels()]];
    [channels] is given in the order the comprehension visits it. *)
Definition new_ChannelFilterSequence (source : Sequence) (channels : list string)
    : result Sequence :=
  f ← filterR (λ i, cs ← Seq.channels source; Ok (bool_decide (i ∈ cs))) channels;
  Ok (Instance ChannelFilterSequence source (<["_filter" := AStrs f]> Sequence_init)).

(** The sequences a program can hold: those of the providers and the
    proxies the constructors return. *)
Inductive built : Sequence → Prop :=
| built_concrete c : built (Concrete c)
| built_proxy s : built s → built (new_ProxySequence s)
| built_frame_map s m v :
    built s → new_FrameMapSequence s m = Ok v → built v
| built_channel_filter s r v :
    built s → new_ChannelFilterSequence s r = Ok v → built v.

(** ** A concrete provider used in the examples

    Five frames, ground truth [r0 .. r4] (objects 100 .. 104), and the two
    channels [color] and [depth]; every indexed accessor of the provider
    rejects an index outside [0, 5). *)

Definition in_range (n i : Z) : bool := (0 <=? i) && (i <? n).

Definition demo_lookup (base : Z) (n : Z) (i : Z) : result pyval :=
  if in_range n i then Ok (PObj (Z.to_nat (base + i))) else Raise IndexError.

Definition demo_all (base : Z) (n : nat) : pyval :=
  PList (map (λ i : nat, PObj (Z.to_nat (base + Z.of_nat i))) (seq 0 n)).

Definition demo_indexed (base : Z) (n : nat) (index : option Z) : result pyval :=
  match index with
  | None => Ok (demo_all base n)
  | Some i => demo_lookup base (Z.of_nat n) i
  end.

Definition demo_channel (base : Z) : ConcreteChannel :=
  {| cc_length := 5;
     cc_frame := demo_lookup base 5;
     cc_filename := demo_lookup (base + 50) 5;
     cc_size := PList [PInt 640; PInt 480] |}.

Definition demo : ConcreteSequence :=
  {| c_len := 5%nat;
     c_length := 5;
     c_metadata := λ _ default, default;
     c_channel := λ name,
       match name with
       | None => Some (ProviderChannel (demo_channel 500))
       | Some n =>
           if String.eqb n "color" then Some (ProviderChannel (demo_channel 500))
           else if String.eqb n "depth" then Some (ProviderChannel (demo_channel 600))
           else None
       end;
     c_channels := ["color"; "depth"];
     c_groundtruth := demo_indexed 100 5;
     c_tags := demo_indexed 200 5;
     c_values := demo_indexed 300 5;
     c_size := PList [PInt 640; PInt 480] |}.

Definition S0 : Sequence := Concrete demo.

(** [FrameMapSequence(S0, [4, 2, 2, 10, -1])], which keeps [4, 2, 2]. *)
Definition V0 : Sequence :=
  Instance FrameMapSequence S0 (<["_map" := AInts [4; 2; 2]]> ∅).

(** [FrameMapSequence(S0, [1, 0])], the first two frames swapped. *)
Definition V1 : Sequence :=
  Instance FrameMapSequence S0 (<["_map" := AInts [1; 0]]> ∅).

(** [ProxySequence(S0)] *)
Definition P0 : Sequence := new_ProxySequence S0.

(** [ChannelFilterSequence(S0, {"color"})] *)
Definition F0 : Sequence :=
  Instance ChannelFilterSequence S0 (<["_filter" := AStrs ["color"]]> ∅).

(** [ChannelFilterSequence(V0, {"color"})], a chain of two views. *)
Definition W0 : Sequence :=
  Instance ChannelFilterSequence V0 (<["_filter" := AStrs ["color"]]> ∅).

(** ** The index map as the specification words it

    The entries [x] of the candidate list with [0 <= x < n], in their
    original order. *)
Definition valid_entries (n : Z) (m : list Z) : list Z :=
  filter (λ x, 0 ≤ x < n) m.

(** ** Chains of views

    The provider at the bottom of a chain of views. *)
Fixpoint root (V : Sequence) : ConcreteSequence :=
  match V with
  | Concrete c => c
  | Instance _ source _ => root source
  end.

(** The index of the provider that a chain of views reaches from the
    index [i] of its outermost view: every frame map on the way indexes
    its [_map], every other class passes the index on. *)
Fixpoint resolve (V : Sequence) (i : Z) : result Z :=
  match V with
  | Concrete _ => Ok i
  | Instance FrameMapSequence source d =>
      m ← get_ints d "_map"; x ← getitem m i; resolve source x
  | Instance _ source _ => resolve source i
  end.

(** Whether a [ChannelFilterSequence] occurs in a chain. *)
Fixpoint has_filter (V : Sequence) : bool :=
  match V with
  | Concrete _ => false
  | Instance ChannelFilterSequence _ _ => true
  | Instance _ source _ => has_filter source
  end.

(** A provider whose [len(S)] and [S.length] agree. *)
Definition coherent (c : ConcreteSequence) : Prop :=
  Z.of_nat (c_len c) = c_length c.

(** [FrameMapSequence(FrameMapSequence(S0, [4, 2, 2, 10, -1]), [2, 0, 7, 1, 0])] *)
Definition V2 : Sequence :=
  Instance FrameMapSequence V0 (<["_map" := AInts [2; 0; 1; 0]]> ∅).

(** A provider whose ground truth is missing from frame 2 on. *)
Definition broken : ConcreteSequence :=
  {| c_len := 5%nat;
     c_length := 5;
     c_metadata := λ _ default, default;
     c_channel := λ _, None;
     c_channels := [];
     c_groundtruth := λ ix,
       match ix with
       | None => Raise (SourceError 0)
       | Some i => if i <? 2 then demo_lookup 100 5 i
                   else Raise (SourceError (Z.to_nat i))
       end;
     c_tags := demo_indexed 200 5;
     c_values := demo_indexed 300 5;
     c_size := PNone |}.

(** * Properties *)

(** ** List primitives *)

Lemma len_nonneg {A} (l : list A) : 0 ≤ len l.
Proof. unfold len. lia. Qed.

Lemma getitem_in_range {A} (l : list A) (i : Z) :
  0 ≤ i < len l →
  ∃ x, l !! Z.to_nat i = Some x ∧ getitem l i = Ok x.
Proof.
  intros Hi. unfold getitem.
  destruct (Z.ltb_spec i 0) as [?|_]; [lia|].
  destruct (Z.leb_spec 0 i); [|lia].
  destruct (Z.ltb_spec i (len l)); [|lia]. simpl.
  destruct (lookup_lt_is_Some_2 l (Z.to_nat i)) as [x Hx].
  { unfold len in Hi. lia. }
  exists x. by rewrite Hx.
Qed.

Lemma getitem_from_end {A} (l : list A) (i : Z) :
  - len l ≤ i < 0 → getitem l i = getitem l (i + len l).
Proof.
  intros Hi. unfold getitem.
  destruct (Z.ltb_spec i 0); [|lia].
  destruct (Z.ltb_spec (i + len l) 0); [lia|]. done.
Qed.

Lemma getitem_out_of_range {A} (l : list A) (i : Z) :
  len l ≤ i ∨ i < - len l → getitem l i = Raise IndexError.
Proof.
  intros Hi. unfold getitem.
  destruct (Z.ltb_spec i 0).
  - destruct (Z.leb_spec 0 (i + len l)); [lia|]. done.
  - destruct (Z.leb_spec 0 i); [|lia].
    destruct (Z.ltb_spec i (len l)); [lia|]. done.
Qed.

Lemma getitem_Ok_bounds {A} (l : list A) (i : Z) (x : A) :
  getitem l i = Ok x → - len l ≤ i < len l.
Proof.
  intros H.
  destruct (decide (len l ≤ i ∨ i < - len l)) as [Hout|Hin]; [|lia].
  rewrite (getitem_out_of_range l i Hout) in H. discriminate.
Qed.

Lemma filterR_pure {A} (p : A → result bool) (q : A → bool) (l : list A) :
  (∀ x, x ∈ l → p x = Ok (q x)) →
  filterR p l = Ok (filter (λ x, q x = true) l).
Proof.
  induction l as [|a l IH]; intros Hp; [done|].
  simpl. rewrite (Hp a) by left. simpl.
  rewrite IH by (intros x Hx; apply Hp; by right). simpl.
  rewrite filter_cons. destruct (q a); by case_decide.
Qed.

Lemma mapR_length {A B} (f : A → result B) (l : list A) (rs : list B) :
  mapR f l = Ok rs → length rs = length l.
Proof.
  revert rs. induction l as [|a l IH]; intros rs; simpl.
  - by intros [= <-].
  - destruct (f a) as [y|e]; simpl; [|done].
    destruct (mapR f l) as [ys|e]; simpl; [|done].
    intros [= <-]. simpl. f_equal. by apply IH.
Qed.

Lemma mapR_all_ok {A B} (f : A → result B) (g : A → B) (l : list A) :
  (∀ x, x ∈ l → f x = Ok (g x)) → mapR f l = Ok (g <$> l).
Proof.
  induction l as [|a l IH]; intros Hf; [done|].
  simpl. rewrite (Hf a) by left. simpl.
  rewrite IH by (intros x Hx; apply Hf; by right). done.
Qed.

(** The loop of [groundtruth] overwrites the slots [k .. k + len l) of the
    preallocated list, in order, and stops at the first exception of the
    source. *)
Lemma groundtruth_loop_from (f : Z → result pyval) (l : list Z) :
  ∀ (k : nat) (acc : list pyval),
    (k + length l ≤ length acc)%nat →
    groundtruth_loop f (imap (λ i x, ((k + i)%nat, x)) l) acc
    = rs ← mapR f l; Ok (take k acc ++ rs ++ drop (k + length l) acc).
Proof.
  induction l as [|a l IH]; intros k acc Hk; simpl.
  - rewrite Nat.add_0_r, take_drop. done.
  - rewrite Nat.add_0_r. destruct (f a) as [r|e]; simpl; [|done].
    unfold setitem. simpl in Hk.
    destruct (decide (k < length acc)%nat) as [_|?]; [|lia]. simpl.
    rewrite (imap_ext _ (λ i x, ((S k + i)%nat, x))).
    2:{ intros i x _. simpl. f_equal. lia. }
    rewrite IH by (rewrite length_insert; lia).
    destruct (mapR f l) as [rs|e]; simpl; [|done].
    f_equal.
    rewrite (take_S_r _ _ r) by (apply list_lookup_insert_eq; lia).
    rewrite take_insert_ge by lia.
    rewrite drop_insert_lt by lia.
    rewrite <- app_assoc. simpl.
    by replace (S (k + length l)) with (k + S (length l))%nat by lia.
Qed.

Lemma groundtruth_loop_enumerate (f : Z → result pyval) (l : list Z) :
  groundtruth_loop f (enumerate l) (replicate (length l) PNone)
  = mapR f l.
Proof.
  unfold enumerate.
  rewrite (imap_ext _ (λ i x, ((0 + i)%nat, x)) l) by done.
  rewrite groundtruth_loop_from by (rewrite length_replicate; lia).
  destruct (mapR f l) as [rs|e] eqn:E; simpl; [|done].
  rewrite drop_ge by (rewrite length_replicate; lia).
  by rewrite app_nil_r.
Qed.

(** ** Instance dictionaries *)

Lemma get_ints_insert (name : string) (l : list Z) (d : gmap string attr) :
  get_ints (<[name := AInts l]> d) name = Ok l.
Proof. unfold get_ints. by rewrite lookup_insert_eq. Qed.

Lemma get_strs_insert (name : string) (l : list string) (d : gmap string attr) :
  get_strs (<[name := AStrs l]> d) name = Ok l.
Proof. unfold get_strs. by rewrite lookup_insert_eq. Qed.

Lemma get_ints_missing (name other : string) (a : attr) :
  other ≠ name →
  get_ints (<[other := a]> ∅) name = Raise (AttributeError name).
Proof.
  intros Hne. unfold get_ints.
  by rewrite lookup_insert_ne, lookup_empty.
Qed.

Lemma get_strs_missing (name other : string) (a : attr) :
  other ≠ name →
  get_strs (<[other := a]> ∅) name = Raise (AttributeError name).
Proof.
  intros Hne. unfold get_strs.
  by rewrite lookup_insert_ne, lookup_empty.
Qed.

(** ** Constructors *)

Lemma valid_entries_bool (n : Z) (m : list Z) :
  filter (λ x, ((0 <=? x) && (x <? n)) = true) m = valid_entries n m.
Proof.
  unfold valid_entries. apply list_filter_iff. intros x.
  rewrite andb_true_iff, Z.leb_le, Z.ltb_lt. done.
Qed.

Lemma valid_entries_Forall (n : Z) (m : list Z) :
  Forall (λ x, 0 ≤ x < n) (valid_entries n m).
Proof.
  unfold valid_entries. apply Forall_forall. intros x Hx.
  by apply list_elem_of_filter in Hx as [? _].
Qed.

Lemma new_FrameMapSequence_length_Ok (S : Sequence) (m : list Z) (n : Z) :
  Seq.length S = Ok n →
  new_FrameMapSequence S m
  = Ok (Instance FrameMapSequence S (<["_map" := AInts (valid_entries n m)]> ∅)).
Proof.
  intros Hn. unfold new_FrameMapSequence.
  rewrite (filterR_pure _ (λ i, (0 <=? i) && (i <? n))).
  - simpl. by rewrite valid_entries_bool.
  - intros x _. rewrite Hn. simpl. by destruct (0 <=? x).
Qed.

Lemma new_FrameMapSequence_inv (S : Sequence) (m : list Z) (V : Sequence) :
  new_FrameMapSequence S m = Ok V →
  ∃ m', V = Instance FrameMapSequence S (<["_map" := AInts m']> ∅).
Proof.
  unfold new_FrameMapSequence. destruct (filterR _ m) as [m'|e]; simpl; [|done].
  intros [= <-]. by exists m'.
Qed.

Lemma new_ChannelFilterSequence_inv (S : Sequence) (r : list string) (V : Sequence) :
  new_ChannelFilterSequence S r = Ok V →
  ∃ f, V = Instance ChannelFilterSequence S (<["_filter" := AStrs f]> ∅)
       ∧ ∀ cs, Seq.channels S = Ok cs → f = filter (λ i, i ∈ cs) r.
Proof.
  unfold new_ChannelFilterSequence.
  destruct (filterR _ r) as [f|e] eqn:E; simpl; [|done].
  intros [= <-]. exists f. split; [done|].
  intros cs Hcs.
  rewrite (filterR_pure _ (λ i, bool_decide (i ∈ cs))) in E.
  - injection E as <-. apply list_filter_iff. intros x.
    by rewrite bool_decide_eq_true.
  - intros x _. by rewrite Hcs.
Qed.

(** ** Lengths *)

Lemma length_forward (k : cls) (source : Sequence) (d : gmap string attr) :
  k ≠ FrameMapSequence →
  Seq.length (Instance k source d) = Seq.__len__ source.
Proof. intros Hk. destruct k, source; done. Qed.

Lemma length_frame_map (source : Sequence) (m : list Z) :
  Seq.length (Instance FrameMapSequence source (<["_map" := AInts m]> ∅))
  = Ok (len m).
Proof. simpl. by rewrite get_ints_insert. Qed.

Lemma built_lengths (s : Sequence) :
  built s → ∃ n n', Seq.length s = Ok n ∧ Seq.__len__ s = Ok n'.
Proof.
  induction 1 as [c|s _ (n & n' & Hn & Hn')|s m v _ _ Hv|s r v _ (n & n' & Hn & Hn') Hv].
  - by exists (c_length c), (Z.of_nat (c_len c)).
  - exists n', n'. unfold new_ProxySequence, Seq.__len__.
    by rewrite length_forward.
  - apply new_FrameMapSequence_inv in Hv as [m' ->].
    exists (len m'), (len m'). unfold Seq.__len__.
    by rewrite length_frame_map.
  - apply new_ChannelFilterSequence_inv in Hv as (f & -> & _).
    exists n', n'. unfold Seq.__len__. by rewrite length_forward.
Qed.

(** Construction of a frame map over a sequence the program can hold never
    raises, and its dictionary holds the filtered map. *)
Lemma new_FrameMapSequence_built (S : Sequence) (m : list Z) :
  built S →
  ∃ n, Seq.length S = Ok n
       ∧ new_FrameMapSequence S m
         = Ok (Instance FrameMapSequence S (<["_map" := AInts (valid_entries n m)]> ∅)).
Proof.
  intros HS. destruct (built_lengths S HS) as (n & _ & Hn & _).
  exists n. split; [done|]. by apply new_FrameMapSequence_length_Ok.
Qed.

(** ** Method equations of a frame map whose [_map] attribute is [m] *)

Section FrameMapEquations.

Variables (source : Sequence) (d : gmap string attr) (m : list Z).
Hypothesis Hmap : get_ints d "_map" = Ok m.

Lemma frame_map_length_eq : Seq.length (Instance FrameMapSequence source d) = Ok (len m).
Proof. simpl. by rewrite Hmap. Qed.

Lemma frame_map_frame_eq (i : Z) :
  Seq.frame (Instance FrameMapSequence source d) i
  = x ← getitem m i;
    Ok {| sequence := Instance FrameMapSequence source d; index := x |}.
Proof. simpl. by rewrite Hmap. Qed.

Lemma frame_map_channel_eq (name : option string) :
  Seq.channel (Instance FrameMapSequence source d) name
  = sc ← Seq.channel source name;
    Ok (match sc with
        | None => None
        | Some c => Some (FrameMapChannel c m)
        end).
Proof.
  simpl. destruct (Seq.channel source name) as [[c|]|e]; simpl; [|done..].
  by rewrite Hmap.
Qed.

Lemma frame_map_groundtruth_at (i : Z) :
  Seq.groundtruth (Instance FrameMapSequence source d) (Some i)
  = x ← getitem m i; Seq.groundtruth source (Some x).
Proof. simpl. by rewrite Hmap. Qed.

Lemma frame_map_groundtruth_all :
  Seq.groundtruth (Instance FrameMapSequence source d) None
  = PList <$> mapR (λ x, Seq.groundtruth source (Some x)) m.
Proof.
  simpl. rewrite Hmap. simpl.
  unfold len. rewrite Nat2Z.id, groundtruth_loop_enumerate.
  by destruct (mapR _ m).
Qed.

Lemma frame_map_tags_at (i : Z) :
  Seq.tags (Instance FrameMapSequence source d) (Some i) = x ← getitem m i; Seq.tags source (Some x).
Proof. simpl. by rewrite Hmap. Qed.

Lemma frame_map_values_at (i : Z) :
  Seq.values (Instance FrameMapSequence source d) (Some i) = x ← getitem m i; Seq.values source (Some x).
Proof. simpl. by rewrite Hmap. Qed.

End FrameMapEquations.

(** ** Claims *)

(** C5: for a source [S] the program can hold and any candidate list [m],
    [FrameMapSequence(S, m)] is constructed without an exception, its
    effective map is the entries [x] of [m] with [0 <= x < S.length] in
    their original order (duplicates and order kept), its [length] is the
    number of those entries, and an access consults only that stored map:
    [frame(i)] is decided by indexing it, with no second check against the
    source. *)
Theorem frame_map_sequence_length (S : Sequence) (m : list Z) :
  built S →
  ∃ n V,
    Seq.length S = Ok n
    ∧ new_FrameMapSequence S m = Ok V
    ∧ V = Instance FrameMapSequence S (<["_map" := AInts (valid_entries n m)]> ∅)
    ∧ Seq.length V = Ok (len (valid_entries n m))
    ∧ ∀ i, Seq.frame V i
           = x ← getitem (valid_entries n m) i; Ok {| sequence := V; index := x |}.
Proof.
  intros HS. destruct (new_FrameMapSequence_built S m HS) as (n & Hn & HV).
  exists n, (Instance FrameMapSequence S (<["_map" := AInts (valid_entries n m)]> ∅)).
  split; [done|]. split; [done|]. split; [done|]. split.
  - apply frame_map_length_eq, get_ints_insert.
  - intros i. apply frame_map_frame_eq, get_ints_insert.
Qed.

Lemma frame_map_sequence_length_witness :
  ∃ n V,
    Seq.length S0 = Ok n
    ∧ new_FrameMapSequence S0 [4; 2; 2; 10; -1] = Ok V
    ∧ V = Instance FrameMapSequence S0
            (<["_map" := AInts (valid_entries n [4; 2; 2; 10; -1])]> ∅)
    ∧ Seq.length V = Ok (len (valid_entries n [4; 2; 2; 10; -1]))
    ∧ ∀ i, Seq.frame V i
           = x ← getitem (valid_entries n [4; 2; 2; 10; -1]) i;
             Ok {| sequence := V; index := x |}.
Proof. apply (frame_map_sequence_length S0 [4; 2; 2; 10; -1]). apply built_concrete. Defined.

(** C6: for a frame map [V] built over [S] with effective map [m'],
    [V.groundtruth(i)] for [0 <= i < length] is [S.groundtruth(m'[i])], and
    [V.groundtruth()] is the list of [S.groundtruth(x)] for the entries [x]
    of [m'] in order (raising what the source raises first, if it does),
    which has as many elements as the view has frames. *)
Theorem frame_map_groundtruth (S : Sequence) (m : list Z) (V : Sequence) :
  built S →
  new_FrameMapSequence S m = Ok V →
  ∃ n, Seq.length S = Ok n
    ∧ Seq.length V = Ok (len (valid_entries n m))
    ∧ (∀ i, 0 ≤ i < len (valid_entries n m) →
         ∃ x, valid_entries n m !! Z.to_nat i = Some x
              ∧ Seq.groundtruth V (Some i) = Seq.groundtruth S (Some x))
    ∧ Seq.groundtruth V None
      = PList <$> mapR (λ x, Seq.groundtruth S (Some x)) (valid_entries n m)
    ∧ (∀ rs, Seq.groundtruth V None = Ok (PList rs) →
         len rs = len (valid_entries n m))
    ∧ (∀ g, (∀ x, x ∈ valid_entries n m → Seq.groundtruth S (Some x) = Ok (g x)) →
         Seq.groundtruth V None = Ok (PList (g <$> valid_entries n m))).
Proof.
  intros HS HV. destruct (new_FrameMapSequence_built S m HS) as (n & Hn & HV').
  rewrite HV' in HV. injection HV as <-. exists n.
  set (m' := valid_entries n m).
  pose proof (get_ints_insert "_map" m' ∅) as Hm.
  split; [done|]. split; [by apply frame_map_length_eq|].
  split; [|split; [by apply frame_map_groundtruth_all|split]].
  - intros i Hi. destruct (getitem_in_range m' i Hi) as (x & Hx & Hget).
    exists x. split; [done|].
    rewrite (frame_map_groundtruth_at S _ m' Hm). by rewrite Hget.
  - intros rs. rewrite (frame_map_groundtruth_all S _ m' Hm).
    destruct (mapR _ m') as [rs'|e] eqn:E; simpl; [|done].
    intros [= <-]. unfold len. f_equal. by eapply mapR_length.
  - intros g Hg. rewrite (frame_map_groundtruth_all S _ m' Hm).
    by rewrite (mapR_all_ok _ g).
Qed.

Lemma frame_map_groundtruth_witness :
  ∃ n, Seq.length S0 = Ok n
    ∧ Seq.length V0 = Ok (len (valid_entries n [4; 2; 2; 10; -1]))
    ∧ (∀ i, 0 ≤ i < len (valid_entries n [4; 2; 2; 10; -1]) →
         ∃ x, valid_entries n [4; 2; 2; 10; -1] !! Z.to_nat i = Some x
              ∧ Seq.groundtruth V0 (Some i) = Seq.groundtruth S0 (Some x))
    ∧ Seq.groundtruth V0 None
      = PList <$> mapR (λ x, Seq.groundtruth S0 (Some x))
                    (valid_entries n [4; 2; 2; 10; -1])
    ∧ (∀ rs, Seq.groundtruth V0 None = Ok (PList rs) →
         len rs = len (valid_entries n [4; 2; 2; 10; -1]))
    ∧ (∀ g, (∀ x, x ∈ valid_entries n [4; 2; 2; 10; -1] →
               Seq.groundtruth S0 (Some x) = Ok (g x)) →
         Seq.groundtruth V0 None
         = Ok (PList (g <$> valid_entries n [4; 2; 2; 10; -1]))).
Proof.
  apply (frame_map_groundtruth S0 [4; 2; 2; 10; -1] V0).
  - apply built_concrete.
  - vm_compute. reflexivity.
Defined.

(** C7: for a frame map [V] built over [S] with effective map [m'],
    [V.tags(i)] and [V.values(i)] for [0 <= i < length] are [S.tags(m'[i])]
    and [S.values(m'[i])]; without an index, [V.tags()] and [V.values()]
    are the source's [S.tags()] and [S.values()], not re-indexed through
    the map. *)
Theorem frame_map_tags_values (S : Sequence) (m : list Z) (V : Sequence) :
  built S →
  new_FrameMapSequence S m = Ok V →
  ∃ n, Seq.length S = Ok n
    ∧ (∀ i, 0 ≤ i < len (valid_entries n m) →
         ∃ x, valid_entries n m !! Z.to_nat i = Some x
              ∧ Seq.tags V (Some i) = Seq.tags S (Some x)
              ∧ Seq.values V (Some i) = Seq.values S (Some x))
    ∧ Seq.tags V None = Seq.tags S None
    ∧ Seq.values V None = Seq.values S None.
Proof.
  intros HS HV. destruct (new_FrameMapSequence_built S m HS) as (n & Hn & HV').
  rewrite HV' in HV. injection HV as <-. exists n.
  set (m' := valid_entries n m).
  pose proof (get_ints_insert "_map" m' ∅) as Hm.
  split; [done|]. split; [|done].
  intros i Hi. destruct (getitem_in_range m' i Hi) as (x & Hx & Hget).
  exists x. split; [done|].
  rewrite (frame_map_tags_at S _ m' Hm), (frame_map_values_at S _ m' Hm).
  by rewrite Hget.
Qed.

Lemma frame_map_tags_values_witness :
  ∃ n, Seq.length S0 = Ok n
    ∧ (∀ i, 0 ≤ i < len (valid_entries n [4; 2; 2; 10; -1]) →
         ∃ x, valid_entries n [4; 2; 2; 10; -1] !! Z.to_nat i = Some x
              ∧ Seq.tags V0 (Some i) = Seq.tags S0 (Some x)
              ∧ Seq.values V0 (Some i) = Seq.values S0 (Some x))
    ∧ Seq.tags V0 None = Seq.tags S0 None
    ∧ Seq.values V0 None = Seq.values S0 None.
Proof.
  apply (frame_map_tags_values S0 [4; 2; 2; 10; -1] V0).
  - apply built_concrete.
  - vm_compute. reflexivity.
Defined.

(** C8: for a source [S] that resolves the channel [name] to [sc], the
    frame map [V] built over [S] resolves it to [sc] wrapped with the
    filtered map [m']; the wrapper's length is the length of [m'], which
    is the length of [V], and for [0 <= i < length] its [frame(i)] and
    [filename(i)] are [sc.frame(m'[i])] and [sc.filename(m'[i])]. *)
Theorem frame_map_channel (S : Sequence) (m : list Z) (V : Sequence)
    (name : option string) (sc : Channel) :
  built S →
  new_FrameMapSequence S m = Ok V →
  Seq.channel S name = Ok (Some sc) →
  ∃ n wc, Seq.length S = Ok n
    ∧ Seq.channel V name = Ok (Some wc)
    ∧ wc = FrameMapChannel sc (valid_entries n m)
    ∧ Chan.length wc = len (valid_entries n m)
    ∧ Seq.length V = Ok (Chan.length wc)
    ∧ ∀ i, 0 ≤ i < Chan.length wc →
        ∃ x, valid_entries n m !! Z.to_nat i = Some x
             ∧ Chan.frame wc i = Chan.frame sc x
             ∧ Chan.filename wc i = Chan.filename sc x.
Proof.
  intros HS HV Hsc. destruct (new_FrameMapSequence_built S m HS) as (n & Hn & HV').
  rewrite HV' in HV. injection HV as <-.
  set (m' := valid_entries n m).
  pose proof (get_ints_insert "_map" m' ∅) as Hm.
  exists n, (FrameMapChannel sc m').
  split; [done|]. split.
  { rewrite (frame_map_channel_eq S _ m' Hm). by rewrite Hsc. }
  split; [done|]. split; [done|]. split.
  { by apply frame_map_length_eq. }
  intros i Hi. simpl in Hi.
  destruct (getitem_in_range m' i Hi) as (x & Hx & Hget).
  exists x. split; [done|]. simpl. by rewrite Hget.
Qed.

Lemma frame_map_channel_witness :
  ∃ n wc, Seq.length S0 = Ok n
    ∧ Seq.channel V0 (Some "color") = Ok (Some wc)
    ∧ wc = FrameMapChannel (ProviderChannel (demo_channel 500))
             (valid_entries n [4; 2; 2; 10; -1])
    ∧ Chan.length wc = len (valid_entries n [4; 2; 2; 10; -1])
    ∧ Seq.length V0 = Ok (Chan.length wc)
    ∧ ∀ i, 0 ≤ i < Chan.length wc →
        ∃ x, valid_entries n [4; 2; 2; 10; -1] !! Z.to_nat i = Some x
             ∧ Chan.frame wc i = Chan.frame (ProviderChannel (demo_channel 500)) x
             ∧ Chan.filename wc i
               = Chan.filename (ProviderChannel (demo_channel 500)) x.
Proof.
  apply (frame_map_channel S0 [4; 2; 2; 10; -1] V0 (Some "color")
           (ProviderChannel (demo_channel 500))).
  - apply built_concrete.
  - vm_compute. reflexivity.
  - reflexivity.
Defined.

(** ** Method equations of a channel filter whose [_filter] attribute is [f]
    and whose dictionary has no [_map] and no [_channels] *)

Section ChannelFilterEquations.

Variables (source : Sequence) (f : list string).

Local Abbreviation self :=
  (Instance ChannelFilterSequence source (<["_filter" := AStrs f]> ∅)).

Lemma channel_filter_excluded (name : option string) :
  contains name f = false → Seq.channel self name = Ok None.
Proof. intros Hname. simpl. rewrite get_strs_insert. simpl. by rewrite Hname. Qed.

Lemma channel_filter_source_absent (name : option string) :
  Seq.channel source name = Ok None → Seq.channel self name = Ok None.
Proof.
  intros Hsrc. simpl. rewrite get_strs_insert. simpl.
  destruct (contains name f); simpl; [|done]. by rewrite Hsrc.
Qed.

Lemma channel_filter_allowed (name : option string) (sc : Channel) :
  contains name f = true →
  Seq.channel source name = Ok (Some sc) →
  Seq.channel self name = Raise (AttributeError "_map").
Proof.
  intros Hname Hsrc. simpl. rewrite get_strs_insert. simpl.
  rewrite Hname. simpl. rewrite Hsrc. simpl.
  by rewrite get_ints_missing.
Qed.

Lemma channel_filter_channels :
  Seq.channels self = Raise (AttributeError "_channels").
Proof. simpl. by rewrite get_strs_missing. Qed.

End ChannelFilterEquations.

(** C9: a channel that is not in scope is answered with [None], not with
    an exception: a frame map answers [None] whenever its source does, and
    a channel filter answers [None] for every name outside its allow-set
    (the requested names that the source lists), the omitted name
    included. *)
Theorem channel_out_of_scope_is_None :
  (∀ (S : Sequence) (m : list Z) (V : Sequence) (name : option string),
     new_FrameMapSequence S m = Ok V →
     Seq.channel S name = Ok None →
     Seq.channel V name = Ok None)
  ∧ (∀ (S : Sequence) (r : list string) (V : Sequence),
       new_ChannelFilterSequence S r = Ok V →
       ∃ f, V = Instance ChannelFilterSequence S (<["_filter" := AStrs f]> ∅)
            ∧ (∀ cs, Seq.channels S = Ok cs → f = filter (λ i, i ∈ cs) r)
            ∧ (∀ name, contains name f = false → Seq.channel V name = Ok None)
            ∧ Seq.channel V None = Ok None).
Proof.
  split.
  - intros S m V name HV Hsrc.
    apply new_FrameMapSequence_inv in HV as [m' ->].
    rewrite (frame_map_channel_eq S _ m' (get_ints_insert _ _ _)).
    by rewrite Hsrc.
  - intros S r V HV.
    apply new_ChannelFilterSequence_inv in HV as (f & -> & Hf).
    exists f. split; [done|]. split; [done|]. split.
    + intros name Hname. by apply channel_filter_excluded.
    + by apply channel_filter_excluded.
Qed.

Lemma channel_out_of_scope_is_None_witness :
  Seq.channel V0 (Some "ir") = Ok None
  ∧ Seq.channel F0 (Some "depth") = Ok None
  ∧ Seq.channel F0 None = Ok None.
Proof.
  destruct channel_out_of_scope_is_None as [Hmap Hfilter].
  split.
  - apply (Hmap S0 [4; 2; 2; 10; -1] V0 (Some "ir")).
    + vm_compute. reflexivity.
    + reflexivity.
  - destruct (Hfilter S0 ["color"] F0) as (f & HF & Hf & Hout & Hnone).
    + vm_compute. reflexivity.
    + split; [|exact Hnone].
      apply Hout. rewrite (Hf ["color"; "depth"]) by reflexivity.
      vm_compute. reflexivity.
Defined.

(** C10: for an instance of any of the three proxy classes, whatever its
    source and its attributes, [len(view)] is [view.length]. *)
Theorem len_is_length (k : cls) (source : Sequence) (d : gmap string attr) :
  Seq.__len__ (Instance k source d) = Seq.length (Instance k source d).
Proof. destruct k; reflexivity. Qed.

(** ** Frame handles *)

(** What [frame] hands out: the generic proxy and the channel filter store
    the index they were given, the frame map stores the entry of its map. *)
Lemma proxy_frame_handle (k : cls) (source : Sequence) (d : gmap string attr) (i : Z) :
  k ≠ FrameMapSequence →
  Seq.frame (Instance k source d) i
  = Ok {| sequence := Instance k source d; index := i |}.
Proof. intros Hk. by destruct k. Qed.

Lemma frame_map_frame_handle (S : Sequence) (m : list Z) (V : Sequence) :
  built S →
  new_FrameMapSequence S m = Ok V →
  ∃ n, Seq.length S = Ok n
    ∧ ∀ i, 0 ≤ i < len (valid_entries n m) →
        ∃ x, valid_entries n m !! Z.to_nat i = Some x
             ∧ Seq.frame V i = Ok {| sequence := V; index := x |}.
Proof.
  intros HS HV. destruct (new_FrameMapSequence_built S m HS) as (n & Hn & HV').
  rewrite HV' in HV. injection HV as <-. exists n. split; [done|].
  intros i Hi. destruct (getitem_in_range _ i Hi) as (x & Hx & Hget).
  exists x. split; [done|].
  rewrite (frame_map_frame_eq S _ _ (get_ints_insert _ _ _)). by rewrite Hget.
Qed.

(** C1: the owner of the handle is the view, but the index a frame map
    stores in it is already translated. For [FrameMapSequence(S0, [1, 0])]
    the handle of view frame 0 carries index 1, and the view answers index
    1 with the source's frame 0, while view frame 0 is the source's frame
    1; for [FrameMapSequence(S0, [4, 2, 2, 10, -1])] the handle of view
    frame 0 carries index 4, which the view of length 3 rejects. *)
Theorem frame_map_frame_stores_translated_index :
  new_FrameMapSequence S0 [1; 0] = Ok V1
  ∧ Seq.length V1 = Ok 2
  ∧ Seq.frame V1 0 = Ok {| sequence := V1; index := 1 |}
  ∧ Seq.groundtruth V1 (Some 0) = Seq.groundtruth S0 (Some 1)
  ∧ Seq.groundtruth V1 (Some 1) = Seq.groundtruth S0 (Some 0)
  ∧ Seq.groundtruth S0 (Some 0) ≠ Seq.groundtruth S0 (Some 1)
  ∧ new_FrameMapSequence S0 [4; 2; 2; 10; -1] = Ok V0
  ∧ Seq.length V0 = Ok 3
  ∧ Seq.frame V0 0 = Ok {| sequence := V0; index := 4 |}
  ∧ Seq.groundtruth V0 (Some 4) = Raise IndexError.
Proof. repeat split; try (vm_compute; reflexivity). vm_compute. discriminate. Qed.

(** ** Out-of-range access *)

(** C2, as the code has it: claimed was that every view rejects every
    index outside [0, length). The generic proxy and the channel filter
    hand out a handle for [frame(length)], and a frame map takes a
    negative index from the end. *)
Lemma frame_out_of_range_returns :
  Seq.length P0 = Ok 5
  ∧ Seq.frame P0 5 = Ok {| sequence := P0; index := 5 |}
  ∧ Seq.length F0 = Ok 5
  ∧ Seq.frame F0 5 = Ok {| sequence := F0; index := 5 |}
  ∧ Seq.length W0 = Ok 3
  ∧ Seq.frame W0 3 = Ok {| sequence := W0; index := 3 |}
  ∧ Seq.length V0 = Ok 3
  ∧ Seq.frame V0 (-1) = Ok {| sequence := V0; index := 2 |}
  ∧ Seq.groundtruth V0 (Some (-1)) = Ok (PObj 102).
Proof. repeat split; vm_compute; reflexivity. Qed.

(** C2, amended: a frame map of length [n], and every channel it hands
    out, reject an index [i] with [n <= i] or [i < -n] with an
    out-of-range error in [frame], indexed [groundtruth], [tags] and
    [values], and the channel's [frame] and [filename]; in particular
    [frame(length)] raises. An index in [-n, 0) is taken from the end.
    The generic proxy and the channel filter do not check the range:
    their [frame] returns a handle for every index, and their indexed
    [groundtruth], [tags] and [values] are the source's. *)
Theorem out_of_range_access (S : Sequence) (m : list Z) (V : Sequence) :
  built S →
  new_FrameMapSequence S m = Ok V →
  ∃ n, Seq.length V = Ok n
    ∧ Seq.frame V n = Raise IndexError
    ∧ (∀ i, n ≤ i ∨ i < - n →
         Seq.frame V i = Raise IndexError
         ∧ Seq.groundtruth V (Some i) = Raise IndexError
         ∧ Seq.tags V (Some i) = Raise IndexError
         ∧ Seq.values V (Some i) = Raise IndexError
         ∧ ∀ name wc, Seq.channel V name = Ok (Some wc) →
             Chan.frame wc i = Raise IndexError
             ∧ Chan.filename wc i = Raise IndexError)
    ∧ (∀ i, - n ≤ i < 0 →
         Seq.frame V i = Seq.frame V (i + n)
         ∧ Seq.groundtruth V (Some i) = Seq.groundtruth V (Some (i + n))
         ∧ Seq.tags V (Some i) = Seq.tags V (Some (i + n))
         ∧ Seq.values V (Some i) = Seq.values V (Some (i + n)))
    ∧ (∀ k T d, k ≠ FrameMapSequence →
         (∀ i, Seq.frame (Instance k T d) i
               = Ok {| sequence := Instance k T d; index := i |})
         ∧ (∀ ix, Seq.groundtruth (Instance k T d) ix = Seq.groundtruth T ix
                  ∧ Seq.tags (Instance k T d) ix = Seq.tags T ix
                  ∧ Seq.values (Instance k T d) ix = Seq.values T ix)).
Proof.
  intros HS HV. destruct (new_FrameMapSequence_built S m HS) as (n & Hn & HV').
  rewrite HV' in HV. injection HV as <-.
  set (m' := valid_entries n m).
  pose proof (get_ints_insert "_map" m' ∅) as Hm.
  assert (Hout : ∀ i, len m' ≤ i ∨ i < - len m' →
            Seq.frame (Instance FrameMapSequence S (<["_map" := AInts m']> ∅)) i
            = Raise IndexError).
  { intros i Hi. rewrite (frame_map_frame_eq S _ m' Hm).
    by rewrite getitem_out_of_range. }
  exists (len m'). split; [by apply frame_map_length_eq|].
  split; [apply Hout; lia|]. split; [|split].
  - intros i Hi. split; [by apply Hout|].
    rewrite (frame_map_groundtruth_at S _ m' Hm), (frame_map_tags_at S _ m' Hm),
      (frame_map_values_at S _ m' Hm), (getitem_out_of_range m' i Hi).
    do 3 (split; [done|]).
    intros name wc. rewrite (frame_map_channel_eq S _ m' Hm).
    destruct (Seq.channel S name) as [[sc|]|e]; simpl; [|done..].
    intros [= <-]. simpl. by rewrite (getitem_out_of_range m' i Hi).
  - intros i Hi.
    rewrite !(frame_map_frame_eq S _ m' Hm), !(frame_map_groundtruth_at S _ m' Hm),
      !(frame_map_tags_at S _ m' Hm), !(frame_map_values_at S _ m' Hm).
    by rewrite (getitem_from_end m' i Hi).
  - intros k T d Hk. split.
    + intros i. by apply proxy_frame_handle.
    + intros ix. by destruct k.
Qed.

Lemma out_of_range_access_witness :
  ∃ n, Seq.length V0 = Ok n
    ∧ Seq.frame V0 n = Raise IndexError
    ∧ (∀ i, n ≤ i ∨ i < - n →
         Seq.frame V0 i = Raise IndexError
         ∧ Seq.groundtruth V0 (Some i) = Raise IndexError
         ∧ Seq.tags V0 (Some i) = Raise IndexError
         ∧ Seq.values V0 (Some i) = Raise IndexError
         ∧ ∀ name wc, Seq.channel V0 name = Ok (Some wc) →
             Chan.frame wc i = Raise IndexError
             ∧ Chan.filename wc i = Raise IndexError)
    ∧ (∀ i, - n ≤ i < 0 →
         Seq.frame V0 i = Seq.frame V0 (i + n)
         ∧ Seq.groundtruth V0 (Some i) = Seq.groundtruth V0 (Some (i + n))
         ∧ Seq.tags V0 (Some i) = Seq.tags V0 (Some (i + n))
         ∧ Seq.values V0 (Some i) = Seq.values V0 (Some (i + n)))
    ∧ (∀ k T d, k ≠ FrameMapSequence →
         (∀ i, Seq.frame (Instance k T d) i
               = Ok {| sequence := Instance k T d; index := i |})
         ∧ (∀ ix, Seq.groundtruth (Instance k T d) ix = Seq.groundtruth T ix
                  ∧ Seq.tags (Instance k T d) ix = Seq.tags T ix
                  ∧ Seq.values (Instance k T d) ix = Seq.values T ix)).
Proof.
  apply (out_of_range_access S0 [4; 2; 2; 10; -1] V0).
  - apply built_concrete.
  - vm_compute. reflexivity.
Defined.

(** ** The channel filter's unassigned attributes *)

(** For every name that the filter lets through and the source resolves,
    [channel] reads [self._map], which no constructor of a channel filter
    assigns. *)
Lemma channel_filter_channel_raises (S : Sequence) (r : list string) (V : Sequence)
    (name : string) (cs : list string) (sc : Channel) :
  new_ChannelFilterSequence S r = Ok V →
  Seq.channels S = Ok cs →
  name ∈ r → name ∈ cs →
  Seq.channel S (Some name) = Ok (Some sc) →
  Seq.channel V (Some name) = Raise (AttributeError "_map").
Proof.
  intros HV Hcs Hr Hin Hsc.
  apply new_ChannelFilterSequence_inv in HV as (f & -> & Hf).
  apply (channel_filter_allowed S f (Some name) sc); [|done].
  simpl. apply bool_decide_eq_true. rewrite (Hf cs Hcs).
  by apply list_elem_of_filter.
Qed.

(** [channels] reads [self._channels], which no constructor assigns. *)
Lemma channel_filter_channels_raises (S : Sequence) (r : list string) (V : Sequence) :
  new_ChannelFilterSequence S r = Ok V →
  Seq.channels V = Raise (AttributeError "_channels").
Proof.
  intros HV. apply new_ChannelFilterSequence_inv in HV as (f & -> & _).
  apply channel_filter_channels.
Qed.

(** C3: [ChannelFilterSequence(S0, {"color"})] has [color] in its
    allow-set and the source resolves it, yet [channel("color")] raises
    [AttributeError] instead of returning the wrapped channel; composed
    over a frame map it raises just the same. *)
Theorem channel_filter_channel_attribute_error :
  new_ChannelFilterSequence S0 ["color"] = Ok F0
  ∧ Seq.channel S0 (Some "color") = Ok (Some (ProviderChannel (demo_channel 500)))
  ∧ Seq.channel F0 (Some "color") = Raise (AttributeError "_map")
  ∧ new_ChannelFilterSequence V0 ["color"] = Ok W0
  ∧ Seq.channel W0 (Some "color") = Raise (AttributeError "_map").
Proof. repeat split; vm_compute; reflexivity. Qed.

(** C4: [ChannelFilterSequence(S0, {"color", "ir"}).channels()] raises
    [AttributeError] instead of returning the allow-set [color]. *)
Theorem channel_filter_channels_attribute_error :
  new_ChannelFilterSequence S0 ["color"; "ir"] = Ok F0
  ∧ Seq.channels S0 = Ok ["color"; "depth"]
  ∧ Seq.channels F0 = Raise (AttributeError "_channels").
Proof. repeat split; vm_compute; reflexivity. Qed.

(** ** A chain of two views

    [ChannelFilterSequence(FrameMapSequence(S0, [4, 2, 2, 10, -1]), {"color"})]:
    three frames are kept, the ground truth follows the map, and the
    channel outside the filter is absent. *)
Example chain_of_views :
  new_FrameMapSequence S0 [4; 2; 2; 10; -1] = Ok V0
  ∧ new_ChannelFilterSequence V0 ["color"] = Ok W0
  ∧ Seq.length W0 = Ok 3
  ∧ Seq.__len__ W0 = Ok 3
  ∧ Seq.groundtruth W0 None = Ok (PList [PObj 104; PObj 102; PObj 102])
  ∧ Seq.groundtruth W0 (Some 0) = Ok (PObj 104)
  ∧ Seq.channel W0 (Some "depth") = Ok None.
Proof. repeat split; vm_compute; reflexivity. Qed.

(** * Further properties of the proxy classes *)

(** Induction over the sequences a program can hold, with the dictionary
    each constructor leaves spelled out. *)
Lemma built_views_ind (P : Sequence → Prop) :
  (∀ c, P (Concrete c)) →
  (∀ s, built s → P s → P (Instance ProxySequence s ∅)) →
  (∀ s m n, built s → P s → Seq.length s = Ok n →
     P (Instance FrameMapSequence s (<["_map" := AInts (valid_entries n m)]> ∅))) →
  (∀ s f, built s → P s →
     P (Instance ChannelFilterSequence s (<["_filter" := AStrs f]> ∅))) →
  ∀ V, built V → P V.
Proof.
  intros Hc Hp Hm Hf V HV.
  induction HV as [c|s Hs IH|s m v Hs IH Hv|s r v Hs IH Hv].
  - apply Hc.
  - by apply Hp.
  - destruct (new_FrameMapSequence_built s m Hs) as (n & Hn & Hv').
    rewrite Hv' in Hv. injection Hv as <-. by apply (Hm s m n).
  - apply new_ChannelFilterSequence_inv in Hv as (f & -> & _). by apply Hf.
Qed.

Lemma valid_entries_elem (n x : Z) (m : list Z) :
  x ∈ valid_entries n m → 0 ≤ x < n.
Proof. unfold valid_entries. intros Hx. by apply list_elem_of_filter in Hx as [? _]. Qed.

Lemma len_instance_forward (s : Sequence) (k : cls) (src : Sequence)
    (d : gmap string attr) :
  s = Instance k src d → Seq.__len__ s = Seq.length s.
Proof. by intros ->. Qed.

(** ** What no view changes *)

(** X1: [size], [metadata] and the calls [tags()] and [values()] without
    an index are answered by the provider at the bottom of the chain, for
    any number and any kind of views stacked on it: the whole-sequence
    tags and values of a frame map are the provider's, not re-indexed and
    as long as the provider's. *)
Theorem chain_forwards_to_root (V : Sequence) (name : string) (default : pyval) :
  Seq.size V = c_size (root V)
  ∧ Seq.metadata V name default = c_metadata (root V) name default
  ∧ Seq.tags V None = c_tags (root V) None
  ∧ Seq.values V None = c_values (root V) None.
Proof.
  induction V as [c|k source IH d]; [done|].
  destruct IH as (Hsize & Hmeta & Htags & Hvalues).
  repeat split; destruct k; simpl; done.
Qed.

(** ** One index translation for every accessor *)

(** X2: through any chain of views, indexed [groundtruth], [tags] and
    [values] translate the index in the same way, frame map by frame map
    from the outermost view inwards, and then ask the provider: the three
    always speak about the same frame of the provider, and fail alike when
    the translation fails. *)
Theorem indexed_access_resolves (V : Sequence) (i : Z) :
  Seq.groundtruth V (Some i) = (x ← resolve V i; c_groundtruth (root V) (Some x))
  ∧ Seq.tags V (Some i) = (x ← resolve V i; c_tags (root V) (Some x))
  ∧ Seq.values V (Some i) = (x ← resolve V i; c_values (root V) (Some x)).
Proof.
  revert i. induction V as [c|k source IH d]; intros i; [done|].
  destruct k; simpl; try apply IH.
  destruct (get_ints d "_map") as [m|e]; simpl; [|done].
  destruct (getitem m i) as [x|e]; simpl; [|done].
  apply IH.
Qed.

(** X3: over a provider whose [len] and [length] agree, every index in
    [0, length) of every view the constructors can build, however many
    views are stacked, translates to an index in [0, length) of the
    provider: the filtering at construction is enough, no access of a
    valid view index leaves the provider's range. *)
Theorem in_range_index_resolves (V : Sequence) (n i : Z) :
  built V →
  coherent (root V) →
  Seq.length V = Ok n →
  0 ≤ i < n →
  ∃ x, resolve V i = Ok x ∧ 0 ≤ x < c_length (root V).
Proof.
  intros HV. revert n i.
  induction HV as [c|s Hs IH|s m n0 Hs IH Hn0|s f Hs IH] using built_views_ind;
    intros n i Hco Hn Hi.
  - simpl in *. injection Hn as <-. by exists i.
  - rewrite length_forward in Hn by done. simpl.
    destruct s as [c|k src d].
    + simpl in *. injection Hn as <-. exists i. split; [done|].
      unfold coherent in Hco. lia.
    + by apply (IH n i).
  - rewrite length_frame_map in Hn. injection Hn as <-.
    destruct (getitem_in_range _ i Hi) as (x & Hx & Hget).
    simpl. rewrite get_ints_insert. simpl. rewrite Hget. simpl.
    apply (IH n0 x); [done..|].
    eapply valid_entries_elem, list_elem_of_lookup_2, Hx.
  - rewrite length_forward in Hn by done. simpl.
    destruct s as [c|k src d].
    + simpl in *. injection Hn as <-. exists i. split; [done|].
      unfold coherent in Hco. lia.
    + by apply (IH n i).
Qed.

Lemma in_range_index_resolves_witness :
  ∃ x, resolve V2 3 = Ok x ∧ 0 ≤ x < c_length (root V2).
Proof.
  apply (in_range_index_resolves V2 4 3).
  - apply (built_frame_map V0 [2; 0; 7; 1; 0] V2).
    + apply (built_frame_map S0 [4; 2; 2; 10; -1] V0).
      * apply built_concrete.
      * vm_compute. reflexivity.
    + vm_compute. reflexivity.
  - reflexivity.
  - vm_compute. reflexivity.
  - lia.
Defined.

(** ** Construction of a frame map *)

Lemma valid_entries_idemp (n : Z) (m : list Z) :
  valid_entries n (valid_entries n m) = valid_entries n m.
Proof.
  unfold valid_entries. rewrite list_filter_filter.
  apply list_filter_iff. intros x. tauto.
Qed.

Lemma valid_entries_length (n : Z) (m : list Z) :
  (length (valid_entries n m) ≤ length m)%nat.
Proof. apply length_filter. Qed.

Lemma valid_entries_all (n : Z) (m : list Z) :
  length (valid_entries n m) = length m ↔ Forall (λ x, 0 ≤ x < n) m.
Proof.
  unfold valid_entries. induction m as [|a m IH]; simpl.
  - split; [constructor|done].
  - rewrite filter_cons. case_decide as Ha; simpl.
    + rewrite Forall_cons. split.
      * intros [= Hl]. split; [done|]. by apply IH.
      * intros [_ Hm]. f_equal. by apply IH.
    + pose proof (length_filter (λ x, 0 ≤ x < n) m). split; [lia|].
      intros Hall. apply Forall_cons in Hall as [? _]. done.
Qed.

(** X4: construction is idempotent: building a frame map from the map that
    an earlier construction over the same source kept gives the same view
    again, nothing more is dropped. *)
Theorem frame_map_construction_idempotent (S : Sequence) (m : list Z) (V : Sequence) :
  built S →
  new_FrameMapSequence S m = Ok V →
  ∃ m', V = Instance FrameMapSequence S (<["_map" := AInts m']> ∅)
        ∧ new_FrameMapSequence S m' = Ok V.
Proof.
  intros HS HV. destruct (new_FrameMapSequence_built S m HS) as (n & Hn & HV').
  rewrite HV' in HV. injection HV as <-.
  exists (valid_entries n m). split; [done|].
  rewrite (new_FrameMapSequence_length_Ok S _ n Hn).
  by rewrite valid_entries_idemp.
Qed.

Lemma frame_map_construction_idempotent_witness :
  ∃ m', V0 = Instance FrameMapSequence S0 (<["_map" := AInts m']> ∅)
        ∧ new_FrameMapSequence S0 m' = Ok V0.
Proof.
  apply (frame_map_construction_idempotent S0 [4; 2; 2; 10; -1] V0).
  - apply built_concrete.
  - vm_compute. reflexivity.
Defined.

(** X5: a frame map is never longer than the candidate list it was built
    from and never of negative length, and it is exactly as long as the
    candidate list if and only if every candidate is a valid index of the
    source. *)
Theorem frame_map_length_bounds (S : Sequence) (m : list Z) (V : Sequence) (n : Z) :
  built S →
  Seq.length S = Ok n →
  new_FrameMapSequence S m = Ok V →
  ∃ k, Seq.length V = Ok k
       ∧ 0 ≤ k ≤ len m
       ∧ (k = len m ↔ Forall (λ x, 0 ≤ x < n) m).
Proof.
  intros HS Hn HV.
  rewrite (new_FrameMapSequence_length_Ok S m n Hn) in HV. injection HV as <-.
  exists (len (valid_entries n m)). split; [apply length_frame_map|].
  pose proof (valid_entries_length n m) as Hle. unfold len. split; [lia|].
  rewrite <- valid_entries_all. lia.
Qed.

Lemma frame_map_length_bounds_witness :
  ∃ k, Seq.length V0 = Ok k
       ∧ 0 ≤ k ≤ len [4; 2; 2; 10; -1]
       ∧ (k = len [4; 2; 2; 10; -1] ↔ Forall (λ x, 0 ≤ x < 5) [4; 2; 2; 10; -1]).
Proof.
  apply (frame_map_length_bounds S0 [4; 2; 2; 10; -1] V0 5).
  - apply built_concrete.
  - reflexivity.
  - vm_compute. reflexivity.
Defined.

(** X6: when no candidate is a valid index of the source (an empty list,
    or a source without frames), construction still succeeds and gives an
    empty view: its length is 0, [groundtruth()] is the empty list without
    the source being asked, and [frame], indexed [groundtruth], [tags] and
    [values] raise [IndexError] for every index. *)
Theorem frame_map_without_valid_entries (S : Sequence) (m : list Z) (n : Z) :
  built S →
  Seq.length S = Ok n →
  Forall (λ x, ¬ (0 ≤ x < n)) m →
  ∃ V, new_FrameMapSequence S m = Ok V
       ∧ Seq.length V = Ok 0
       ∧ Seq.groundtruth V None = Ok (PList [])
       ∧ ∀ i, Seq.frame V i = Raise IndexError
              ∧ Seq.groundtruth V (Some i) = Raise IndexError
              ∧ Seq.tags V (Some i) = Raise IndexError
              ∧ Seq.values V (Some i) = Raise IndexError.
Proof.
  intros HS Hn Hall.
  assert (Hnil : valid_entries n m = []).
  { unfold valid_entries. induction Hall as [|a m Ha _ IH]; [done|].
    by rewrite filter_cons_False. }
  eexists. split; [by apply new_FrameMapSequence_length_Ok|].
  rewrite Hnil.
  pose proof (get_ints_insert "_map" [] ∅) as Hm.
  split; [by rewrite length_frame_map|].
  split; [by rewrite (frame_map_groundtruth_all S _ [] Hm)|].
  intros i.
  rewrite (frame_map_frame_eq S _ [] Hm), (frame_map_groundtruth_at S _ [] Hm),
    (frame_map_tags_at S _ [] Hm), (frame_map_values_at S _ [] Hm).
  rewrite getitem_out_of_range by (unfold len; simpl; lia). done.
Qed.

Lemma frame_map_without_valid_entries_witness :
  ∃ V, new_FrameMapSequence S0 [10; -1; 5] = Ok V
       ∧ Seq.length V = Ok 0
       ∧ Seq.groundtruth V None = Ok (PList [])
       ∧ ∀ i, Seq.frame V i = Raise IndexError
              ∧ Seq.groundtruth V (Some i) = Raise IndexError
              ∧ Seq.tags V (Some i) = Raise IndexError
              ∧ Seq.values V (Some i) = Raise IndexError.
Proof.
  apply (frame_map_without_valid_entries S0 [10; -1; 5] 5).
  - apply built_concrete.
  - reflexivity.
  - repeat constructor; lia.
Defined.

(** ** The identity map *)

Lemma valid_entries_id (n : Z) (m : list Z) :
  Forall (λ x, 0 ≤ x < n) m → valid_entries n m = m.
Proof.
  unfold valid_entries. induction 1 as [|a m Ha _ IH]; [done|].
  rewrite filter_cons_True by done. by rewrite IH.
Qed.

Lemma getitem_seqZ (n i : Z) :
  0 ≤ i < n → getitem (seqZ 0 n) i = Ok i.
Proof.
  intros Hi. destruct (getitem_in_range (seqZ 0 n) i) as (x & Hx & ->).
  { unfold len. rewrite length_seqZ. lia. }
  apply lookup_seqZ in Hx as [-> _]. f_equal. lia.
Qed.

(** X7: a frame map built from the identity list [0, 1, ..., n - 1] of a
    source of length [n] is transparent: it has the source's length, and
    for every index in range its indexed [groundtruth], [tags] and
    [values] are the source's at the same index, its frame handle carries
    that index, and its [groundtruth()] asks the source index by index in
    order. *)
Theorem identity_frame_map (S : Sequence) (n : Z) :
  built S →
  Seq.length S = Ok n →
  0 ≤ n →
  ∃ V, new_FrameMapSequence S (seqZ 0 n) = Ok V
       ∧ Seq.length V = Ok n
       ∧ (∀ i, 0 ≤ i < n →
            Seq.groundtruth V (Some i) = Seq.groundtruth S (Some i)
            ∧ Seq.tags V (Some i) = Seq.tags S (Some i)
            ∧ Seq.values V (Some i) = Seq.values S (Some i)
            ∧ Seq.frame V i = Ok {| sequence := V; index := i |})
       ∧ Seq.groundtruth V None
         = PList <$> mapR (λ x, Seq.groundtruth S (Some x)) (seqZ 0 n).
Proof.
  intros HS Hn Hpos.
  assert (Hid : valid_entries n (seqZ 0 n) = seqZ 0 n).
  { apply valid_entries_id, Forall_forall. intros x Hx.
    apply elem_of_seqZ in Hx. lia. }
  eexists. split; [by apply new_FrameMapSequence_length_Ok|].
  rewrite Hid.
  pose proof (get_ints_insert "_map" (seqZ 0 n) ∅) as Hm.
  split.
  { rewrite length_frame_map. unfold len. rewrite length_seqZ. f_equal. lia. }
  split; [|by apply frame_map_groundtruth_all].
  intros i Hi.
  rewrite (frame_map_groundtruth_at S _ _ Hm), (frame_map_tags_at S _ _ Hm),
    (frame_map_values_at S _ _ Hm), (frame_map_frame_eq S _ _ Hm).
  by rewrite getitem_seqZ.
Qed.

Lemma identity_frame_map_witness :
  ∃ V, new_FrameMapSequence S0 (seqZ 0 5) = Ok V
       ∧ Seq.length V = Ok 5
       ∧ (∀ i, 0 ≤ i < 5 →
            Seq.groundtruth V (Some i) = Seq.groundtruth S0 (Some i)
            ∧ Seq.tags V (Some i) = Seq.tags S0 (Some i)
            ∧ Seq.values V (Some i) = Seq.values S0 (Some i)
            ∧ Seq.frame V i = Ok {| sequence := V; index := i |})
       ∧ Seq.groundtruth V None
         = PList <$> mapR (λ x, Seq.groundtruth S0 (Some x)) (seqZ 0 5).
Proof.
  apply (identity_frame_map S0 5).
  - apply built_concrete.
  - reflexivity.
  - lia.
Defined.

(** ** Exceptions of the source inside [groundtruth()] *)

Lemma mapR_first_error {A B} (f : A → result B) (l1 l2 : list A) (x : A) (e : exn) :
  (∀ y, y ∈ l1 → ∃ r, f y = Ok r) →
  f x = Raise e →
  mapR f (l1 ++ x :: l2) = Raise e.
Proof.
  intros Hl1 Hx. induction l1 as [|a l1 IH]; simpl.
  - by rewrite Hx.
  - destruct (Hl1 a) as [r ->]; [by left|]. simpl.
    rewrite IH; [done|]. intros y Hy. apply Hl1. by right.
Qed.

(** X8: [groundtruth()] of a frame map asks the source entry by entry in
    the order of the map and gives up at the first entry the source
    rejects: the exception of that entry is what the caller gets, no
    partial list and no entry after it. *)
Theorem groundtruth_all_first_error (S : Sequence) (m : list Z) (V : Sequence)
    (n : Z) (l1 l2 : list Z) (x : Z) (e : exn) :
  built S →
  Seq.length S = Ok n →
  new_FrameMapSequence S m = Ok V →
  valid_entries n m = l1 ++ x :: l2 →
  (∀ y, y ∈ l1 → ∃ r, Seq.groundtruth S (Some y) = Ok r) →
  Seq.groundtruth S (Some x) = Raise e →
  Seq.groundtruth V None = Raise e.
Proof.
  intros HS Hn HV Hsplit Hl1 Hx.
  rewrite (new_FrameMapSequence_length_Ok S m n Hn) in HV. injection HV as <-.
  rewrite (frame_map_groundtruth_all S _ _ (get_ints_insert _ _ _)).
  rewrite Hsplit. by rewrite (mapR_first_error _ l1 l2 x e).
Qed.

Lemma groundtruth_all_first_error_witness :
  Seq.groundtruth
    (Instance FrameMapSequence (Concrete broken) (<["_map" := AInts [0; 1; 3; 2]]> ∅))
    None
  = Raise (SourceError 3).
Proof.
  apply (groundtruth_all_first_error (Concrete broken) [0; 1; 7; 3; 2] _ 5 [0; 1] [2] 3).
  - apply built_concrete.
  - reflexivity.
  - vm_compute. reflexivity.
  - vm_compute. reflexivity.
  - intros y Hy. apply list_elem_of_In in Hy. simpl in Hy.
    destruct Hy as [<-|[<-|[]]]; eexists; vm_compute; reflexivity.
  - reflexivity.
Defined.

(** ** Two frame maps, one over the other *)

Lemma bind_Ok {A B} (a : A) (f : A → result B) : (Ok a ≫= f) = f a.
Proof. done. Qed.

(** X9: a frame map built over a frame map composes the two translations.
    The outer map is filtered against the length of the inner view, not
    of the source; the length is that of the outer map; an index in range
    goes through the outer map and then through the inner one, for the
    indexed [groundtruth] as for [frame] and [filename] of a channel,
    which comes wrapped twice. *)
Theorem frame_map_composition (S : Sequence) (m1 m2 : list Z) (Va Vb : Sequence)
    (n : Z) :
  built S →
  Seq.length S = Ok n →
  new_FrameMapSequence S m1 = Ok Va →
  new_FrameMapSequence Va m2 = Ok Vb →
  ∃ m1' m2',
    m1' = valid_entries n m1
    ∧ m2' = valid_entries (len m1') m2
    ∧ Vb = Instance FrameMapSequence Va (<["_map" := AInts m2']> ∅)
    ∧ Seq.length Vb = Ok (len m2')
    ∧ (∀ i, 0 ≤ i < len m2' →
         ∃ x y, m2' !! Z.to_nat i = Some x
                ∧ m1' !! Z.to_nat x = Some y
                ∧ 0 ≤ y < n
                ∧ Seq.groundtruth Vb (Some i) = Seq.groundtruth S (Some y)
                ∧ ∀ name sc, Seq.channel S name = Ok (Some sc) →
                    ∃ wc, Seq.channel Vb name = Ok (Some wc)
                          ∧ Chan.length wc = len m2'
                          ∧ Chan.frame wc i = Chan.frame sc y
                          ∧ Chan.filename wc i = Chan.filename sc y).
Proof.
  intros HS Hn Ha Hb.
  rewrite (new_FrameMapSequence_length_Ok S m1 n Hn) in Ha. injection Ha as <-.
  set (m1' := valid_entries n m1) in *.
  pose proof (get_ints_insert "_map" m1' ∅) as Hm1.
  rewrite (new_FrameMapSequence_length_Ok _ m2 (len m1')) in Hb
    by apply length_frame_map.
  injection Hb as <-.
  set (m2' := valid_entries (len m1') m2).
  pose proof (get_ints_insert "_map" m2' ∅) as Hm2.
  exists m1', m2'. do 3 (split; [done|]).
  split; [apply length_frame_map|].
  intros i Hi.
  destruct (getitem_in_range m2' i Hi) as (x & Hx & Hgx).
  assert (Hxr : 0 ≤ x < len m1').
  { eapply valid_entries_elem, list_elem_of_lookup_2, Hx. }
  destruct (getitem_in_range m1' x Hxr) as (y & Hy & Hgy).
  exists x, y. do 2 (split; [done|]).
  split. { eapply valid_entries_elem, list_elem_of_lookup_2, Hy. }
  split.
  - rewrite (frame_map_groundtruth_at _ _ m2' Hm2), Hgx, bind_Ok.
    by rewrite (frame_map_groundtruth_at _ _ m1' Hm1), Hgy.
  - intros name sc Hsc.
    exists (FrameMapChannel (FrameMapChannel sc m1') m2').
    split.
    + rewrite (frame_map_channel_eq _ _ m2' Hm2).
      rewrite (frame_map_channel_eq _ _ m1' Hm1). by rewrite Hsc.
    + split; [done|]. simpl. rewrite Hgx. simpl. by rewrite Hgy.
Qed.

Lemma frame_map_composition_witness :
  ∃ m1' m2',
    m1' = valid_entries 5 [4; 2; 2; 10; -1]
    ∧ m2' = valid_entries (len m1') [2; 0; 7; 1; 0]
    ∧ V2 = Instance FrameMapSequence V0 (<["_map" := AInts m2']> ∅)
    ∧ Seq.length V2 = Ok (len m2')
    ∧ (∀ i, 0 ≤ i < len m2' →
         ∃ x y, m2' !! Z.to_nat i = Some x
                ∧ m1' !! Z.to_nat x = Some y
                ∧ 0 ≤ y < 5
                ∧ Seq.groundtruth V2 (Some i) = Seq.groundtruth S0 (Some y)
                ∧ ∀ name sc, Seq.channel S0 name = Ok (Some sc) →
                    ∃ wc, Seq.channel V2 name = Ok (Some wc)
                          ∧ Chan.length wc = len m2'
                          ∧ Chan.frame wc i = Chan.frame sc y
                          ∧ Chan.filename wc i = Chan.filename sc y).
Proof.
  apply (frame_map_composition S0 [4; 2; 2; 10; -1] [2; 0; 7; 1; 0] V0 V2 5).
  - apply built_concrete.
  - reflexivity.
  - vm_compute. reflexivity.
  - vm_compute. reflexivity.
Defined.

(** ** Channels along a chain of views *)

Lemma channels_built (V : Sequence) :
  built V →
  Seq.channels V
  = if has_filter V then Raise (AttributeError "_channels")
    else Ok (c_channels (root V)).
Proof.
  induction 1 as [c|s Hs IH|s m n Hs IH Hn|s f Hs IH] using built_views_ind;
    simpl; try done; by rewrite get_strs_missing.
Qed.

Lemma filterR_first_raises {A} (p : A → result bool) (x : A) (l : list A) (e : exn) :
  p x = Raise e → filterR p (x :: l) = Raise e.
Proof. intros Hx. simpl. by rewrite Hx. Qed.

(** X10: [channels()] of a view answers the provider's channel list as
    long as no channel filter is in the chain below or at the view, frame
    maps and generic proxies hiding nothing; once a channel filter is in
    the chain, [channels()] of it and of every view stacked on it raises
    [AttributeError]. *)
Theorem channels_along_chain (V : Sequence) :
  built V →
  (has_filter V = false → Seq.channels V = Ok (c_channels (root V)))
  ∧ (has_filter V = true → Seq.channels V = Raise (AttributeError "_channels")).
Proof.
  intros HV. rewrite (channels_built V HV).
  split; intros ->; done.
Qed.

Lemma channels_along_chain_witness :
  (has_filter V2 = false → Seq.channels V2 = Ok (c_channels (root V2)))
  ∧ (has_filter V2 = true → Seq.channels V2 = Raise (AttributeError "_channels")).
Proof.
  apply (channels_along_chain V2).
  apply (built_frame_map V0 [2; 0; 7; 1; 0] V2).
  - apply (built_frame_map S0 [4; 2; 2; 10; -1] V0).
    + apply built_concrete.
    + vm_compute. reflexivity.
  - vm_compute. reflexivity.
Defined.

(** X11: the constructor of a channel filter asks the source for its
    channels once per requested name. Over a chain without a channel
    filter it succeeds and keeps the requested names that the provider
    lists, in the order requested; over a chain that already has a channel
    filter it raises [AttributeError] as soon as one name is requested,
    and succeeds with an empty allow-set only when none is. *)
Theorem channel_filter_construction (S : Sequence) (r : list string) :
  built S →
  (has_filter S = false →
     new_ChannelFilterSequence S r
     = Ok (Instance ChannelFilterSequence S
             (<["_filter" := AStrs (filter (λ i, i ∈ c_channels (root S)) r)]> ∅)))
  ∧ (has_filter S = true → r ≠ [] →
       new_ChannelFilterSequence S r = Raise (AttributeError "_channels"))
  ∧ new_ChannelFilterSequence S []
    = Ok (Instance ChannelFilterSequence S (<["_filter" := AStrs []]> ∅)).
Proof.
  intros HS. pose proof (channels_built S HS) as Hch.
  split; [|split; [|done]].
  - intros Hf. rewrite Hf in Hch. unfold new_ChannelFilterSequence.
    rewrite (filterR_pure _ (λ i, bool_decide (i ∈ c_channels (root S)))).
    + simpl. do 4 f_equal. apply list_filter_iff. intros x.
      by rewrite bool_decide_eq_true.
    + intros x _. by rewrite Hch.
  - intros Hf Hr. rewrite Hf in Hch. destruct r as [|a r]; [done|].
    unfold new_ChannelFilterSequence.
    rewrite (filterR_first_raises _ a r (AttributeError "_channels")); [done|].
    by rewrite Hch.
Qed.

Lemma channel_filter_construction_witness :
  (has_filter F0 = false →
     new_ChannelFilterSequence F0 ["color"]
     = Ok (Instance ChannelFilterSequence F0
             (<["_filter" := AStrs (filter (λ i, i ∈ c_channels (root F0)) ["color"])]> ∅)))
  ∧ (has_filter F0 = true → ["color"] ≠ [] →
       new_ChannelFilterSequence F0 ["color"] = Raise (AttributeError "_channels"))
  ∧ new_ChannelFilterSequence F0 []
    = Ok (Instance ChannelFilterSequence F0 (<["_filter" := AStrs []]> ∅)).
Proof.
  apply (channel_filter_construction F0 ["color"]).
  apply (built_channel_filter S0 ["color"] F0).
  - apply built_concrete.
  - vm_compute. reflexivity.
Defined.

(** X12: no view with a channel filter in its chain ever hands out a
    channel: for every name, allowed or not, [channel] answers [None] or
    raises, whatever views are stacked on the filter. *)
Theorem filtered_chain_never_returns_channel (V : Sequence)
    (name : option string) (c : Channel) :
  built V →
  has_filter V = true →
  Seq.channel V name ≠ Ok (Some c).
Proof.
  intros HV. revert c.
  induction HV as [k|s Hs IH|s m n Hs IH Hn|s f Hs IH] using built_views_ind;
    intros c Hf.
  - done.
  - simpl in *. by apply IH.
  - rewrite (frame_map_channel_eq s _ _ (get_ints_insert _ _ _)).
    simpl in Hf. destruct (Seq.channel s name) as [[sc|]|e] eqn:E; simpl; [|done..].
    by destruct (IH sc Hf).
  - simpl. rewrite get_strs_insert. simpl.
    destruct (contains name f); simpl; [|done].
    destruct (Seq.channel s name) as [[sc|]|e]; simpl; [|done..].
    by rewrite get_ints_missing.
Qed.

Lemma filtered_chain_never_returns_channel_witness :
  Seq.channel F0 (Some "color") ≠ Ok (Some (ProviderChannel (demo_channel 500))).
Proof.
  apply (filtered_chain_never_returns_channel F0).
  - apply (built_channel_filter S0 ["color"] F0).
    + apply built_concrete.
    + vm_compute. reflexivity.
  - reflexivity.
Defined.
